(** * Clara 2: the four-sample window [Discrete<T>] and the relativistic
      conversions of [More_discrete] (src/include/discrete.hpp)

    The C++ type [double] is read in two ways.  For the algebra of the
    window and of the conversions it is read as the real numbers: every
    arithmetic expression of the source is translated operator by
    operator, in the source's evaluation order, with the operations of
    [R]; rounding, overflow and NaN are outside that reading.  Where
    rounding or overflow decides a property, [gamma] and [beta] are
    transcribed a second time, in [Module Binary64], with the IEEE 754
    binary64 operations, and evaluated.

    A window does not own its time axis: it stores a raw pointer
    [const Discrete<double>* h].  Pointers are modelled as optional
    addresses into a memory of time-axis objects, so that pointer identity
    (the assertion of [operator=]) and dereferencing (the derivatives) keep
    their own meaning. *)

From Stdlib Require Import Reals Lra Psatz Bool Arith List.
From Stdlib Require Floats.
Import ListNotations.

Local Open Scope R_scope.

(** ** Pointers and memory *)

Definition address := nat.

(** [const Discrete<double>*]: [None] is the null pointer [0]. *)
Definition pointer := option address.

Definition null : pointer := None.

(** [p == q] on pointers. *)
Definition pointer_eqb (p q : pointer) : bool :=
  match p, q with
  | None, None => true
  | Some a, Some b => Nat.eqb a b
  | _, _ => false
  end.

(** ** class Discrete<T> *)

Record Discrete (T : Type) : Type := Build_Discrete {
  old2 : T;     (* value at t-3 *)
  old : T;      (* value at t-2 *)
  now : T;      (* value at t-1 *)
  future : T;   (* value at t-0 *)
  h : pointer   (* pointer to time values *)
}.

Arguments Build_Discrete {T} _ _ _ _ _.
Arguments old2 {T} _.
Arguments old {T} _.
Arguments now {T} _.
Arguments future {T} _.
Arguments h {T} _.

(** The objects a pointer can point to: time axes, [Discrete<double>]. *)
Definition memory := address -> option (Discrete R).

(** [*p]: defined only for a pointer to a live object. *)
Definition deref (m : memory) (p : pointer) : option (Discrete R) :=
  match p with
  | None => None
  | Some a => m a
  end.

(** The accessors, and assignment to one data member, the other members
    untouched. *)
Section Members.
Context {T : Type}.

Definition get_old2 (self : Discrete T) : T := old2 self.
Definition get_old (self : Discrete T) : T := old self.
Definition get_now (self : Discrete T) : T := now self.
Definition get_future (self : Discrete T) : T := future self.

Definition set_old2 (v : T) (s : Discrete T) : Discrete T :=
  Build_Discrete v (old s) (now s) (future s) (h s).

Definition set_old (v : T) (s : Discrete T) : Discrete T :=
  Build_Discrete (old2 s) v (now s) (future s) (h s).

Definition set_now (v : T) (s : Discrete T) : Discrete T :=
  Build_Discrete (old2 s) (old s) v (future s) (h s).

Definition set_future (v : T) (s : Discrete T) : Discrete T :=
  Build_Discrete (old2 s) (old s) (now s) v (h s).

Definition set_h (p : pointer) (s : Discrete T) : Discrete T :=
  Build_Discrete (old2 s) (old s) (now s) (future s) p.
End Members.

(** The arithmetic a payload type [T] of [Discrete<T>] must offer to the
    derivatives: [T - T] and [T / double]. *)
Class Payload (T : Type) : Type := {
  minus : T -> T -> T;
  over : T -> R -> T
}.

#[export] Instance Payload_double : Payload R := {
  minus := Rminus;
  over := Rdiv
}.

(** [assert(cond)] of <cassert>: compiled out when NDEBUG is defined,
    otherwise the program aborts ([None]) when [cond] is false. *)
Definition assert (ndebug : bool) (cond : bool) : option unit :=
  if ndebug || cond then Some tt else None.

Section Discrete.
Context {T : Type}.

(** [Discrete(T old2, T old, T now, T future, const Discrete<double>* h = 0)] *)
Definition Discrete_filled (old2 old now future : T) (h : pointer)
  : Discrete T :=
  Build_Discrete old2 old now future h.

(** The same constructor called with the last argument omitted. *)
Definition Discrete_filled_default (old2 old now future : T) : Discrete T :=
  Discrete_filled old2 old now future null.

(** [Discrete(const Discrete<double>* h = 0)]: only [h] is initialised;
    the four values are whatever default initialisation left in the
    storage of the object, here [storage]. *)
Definition Discrete_unfilled (storage : Discrete T) (h : pointer)
  : Discrete T :=
  set_h h storage.

Definition Discrete_unfilled_default (storage : Discrete T) : Discrete T :=
  Discrete_unfilled storage null.

(** [operator=]: the assertion, then four member assignments in the
    order of the source; the updated [*this] is returned. *)
Definition assign (ndebug : bool) (self copy : Discrete T)
  : option (Discrete T) :=
  match assert ndebug (pointer_eqb (h copy) (h self)) with
  | None => None
  | Some _ =>
      let s1 := set_old2 (old2 copy) self in
      let s2 := set_old (old copy) s1 in
      let s3 := set_now (now copy) s2 in
      let s4 := set_future (future copy) s3 in
      Some s4
  end.

(** [void next(T next)]: four member assignments, each reading the
    object as the previous one left it. *)
Definition next (next_value : T) (self : Discrete T) : Discrete T :=
  let s1 := set_old2 (old self) self in
  let s2 := set_old (now s1) s1 in
  let s3 := set_now (future s2) s2 in
  set_future next_value s3.

Context `{Payload T}.

(** [(now - old2)/(h->get_now() - h->get_old2())]; dereferencing [h]
    is undefined ([None]) unless it points to a live time axis. *)
Definition dot_old (m : memory) (self : Discrete T) : option T :=
  match deref m (h self) with
  | None => None
  | Some axis =>
      Some (over (minus (now self) (old2 self))
                 (get_now axis - get_old2 axis))
  end.

(** [(future - old)/(h->get_future() - h->get_old())] *)
Definition dot_now (m : memory) (self : Discrete T) : option T :=
  match deref m (h self) with
  | None => None
  | Some axis =>
      Some (over (minus (future self) (old self))
                 (get_future axis - get_old axis))
  end.

Definition get_delta_old (self : Discrete T) : T :=
  minus (get_now self) (get_old self).
End Discrete.

(** ** Vectors and squares (utilities.hpp, vector.hpp) *)

(** Modelled from the spec: [R_vec], the 3-vector of doubles that carries
    a momentum or a velocity ratio.  Its header is not among the sources;
    the operators the code of discrete.hpp applies to it are taken
    componentwise: vector times scalar, vector divided by scalar, vector
    minus vector, and vector times vector as the scalar product (so that
    [util::square<R_vec, double>] is the squared norm the spec names). *)
Record R_vec : Type := Build_R_vec { vx : R; vy : R; vz : R }.

Definition R_vec_scale (v : R_vec) (a : R) : R_vec :=
  Build_R_vec (vx v * a) (vy v * a) (vz v * a).

Definition R_vec_div (v : R_vec) (a : R) : R_vec :=
  Build_R_vec (vx v / a) (vy v / a) (vz v / a).

Definition R_vec_minus (v w : R_vec) : R_vec :=
  Build_R_vec (vx v - vx w) (vy v - vy w) (vz v - vz w).

Definition R_vec_dot (v w : R_vec) : R :=
  vx v * vx w + vy v * vy w + vz v * vz w.

Definition R_vec_zero : R_vec := Build_R_vec 0 0 0.

#[export] Instance Payload_R_vec : Payload R_vec := {
  minus := R_vec_minus;
  over := R_vec_div
}.

(** [A * A] with result type [B], the operator [util::square<A, B>] needs. *)
Class Times (A B : Type) : Type := times : A -> A -> B.

#[export] Instance Times_double : Times R R := Rmult.
#[export] Instance Times_R_vec : Times R_vec R := R_vec_dot.

(** Modelled from the spec: [util::square<A, B>(a)], the square [a*a] of
    utilities.hpp (not among the sources). *)
Definition square {A B : Type} `{Times A B} (a : A) : B := times a a.

(** The Euclidean norm of a vector, in which the spec states its
    properties. *)
Definition norm (v : R_vec) : R := sqrt (R_vec_dot v v).

(** ** class More_discrete *)

Record More_discrete : Type := Build_More_discrete {
  stepwidth : pointer
}.

Section More_discrete.
(** [phy::c] and [phy::m_e] of physics_units.hpp, which is not among
    the sources: the speed of light and the electron rest mass. *)
Variables c m_e : R.

(** [double gamma(R_vec p)] *)
Definition gamma (p : R_vec) : R :=
  sqrt (square (R_vec_scale p c) + square (m_e * square c))
  / (m_e * square c).

(** [R_vec beta(R_vec p, double gamma)] *)
Definition beta (p : R_vec) (gamma : R) : R_vec :=
  R_vec_scale p (1 / (c * m_e * gamma)).

Variable self : More_discrete.

Definition momentum_to_gamma (p : Discrete R_vec) : Discrete R :=
  Discrete_filled (gamma (get_old2 p))
                  (gamma (get_old p))
                  (gamma (get_now p))
                  (gamma (get_future p))
                  (stepwidth self).

Definition momentum_to_beta (p : Discrete R_vec) (gamma : Discrete R)
  : Discrete R_vec :=
  Discrete_filled (beta (get_old2 p) (get_old2 gamma))
                  (beta (get_old p) (get_old gamma))
                  (beta (get_now p) (get_now gamma))
                  (beta (get_future p) (get_future gamma))
                  (stepwidth self).
End More_discrete.

(** The two quantities [gamma] is made of, as the source computes them:
    the radicand [square<R_vec, double>(p*c) + square(m_e*square(c))] and
    the divisor [m_e*square(c)]. *)
Definition energy2 (c m_e : R) (p : R_vec) : R :=
  square (R_vec_scale p c) + square (m_e * square c).

Definition rest (c m_e : R) : R := m_e * square c.

(** The Lorentz factor in the words of the spec, as a function of the
    norm [pn] of the momentum:
    sqrt((pn c)^2 + (m_e c^2)^2) / (m_e c^2). *)
Definition lorentz_factor (c m_e pn : R) : R :=
  sqrt ((pn * c) ^ 2 + (m_e * c ^ 2) ^ 2) / (m_e * c ^ 2).

(** ** Use of the window by its owner *)

(** Writing an object at an address; the other addresses keep theirs.
    This is how the owner of the time axis advances it under the windows
    that point to it. *)
Definition store (m : memory) (a : address) (axis : Discrete R) : memory :=
  fun b => if Nat.eqb b a then Some axis else m b.

(** The windows a program can obtain from a constructor called with the
    pointer [hp], by any sequence of [next] and [operator=]. *)
Inductive built_on {T : Type} (hp : pointer) : Discrete T -> Prop :=
| built_filled (v0 v1 v2 v3 : T) :
    built_on hp (Discrete_filled v0 v1 v2 v3 hp)
| built_unfilled (storage : Discrete T) :
    built_on hp (Discrete_unfilled storage hp)
| built_next (w : Discrete T) (v : T) :
    built_on hp w -> built_on hp (next v w)
| built_assign (ndebug : bool) (w copy w' : Discrete T) :
    built_on hp w -> assign ndebug w copy = Some w' -> built_on hp w'.

(** The quadratic [q2 t^2 + q1 t + q0] and a window sampling it at the
    four times of a uniform axis that starts at [t0] with step [dt]. *)
Definition quadratic (q2 q1 q0 : R) (t : R) : R := q2 * t * t + q1 * t + q0.

Definition uniform_axis (t0 dt : R) : Discrete R :=
  Discrete_filled_default t0 (t0 + dt) (t0 + 2 * dt) (t0 + 3 * dt).

(** An axis object whose four times are those of [uniform_axis t0 dt],
    whatever its own pointer is. *)
Definition uniform (t0 dt : R) (axis : Discrete R) : Prop :=
  get_old2 axis = t0 /\ get_old axis = t0 + dt /\
  get_now axis = t0 + 2 * dt /\ get_future axis = t0 + 3 * dt.

Definition sampled (f : R -> R) (axis : Discrete R) (hp : pointer)
  : Discrete R :=
  Discrete_filled (f (get_old2 axis)) (f (get_old axis))
                  (f (get_now axis)) (f (get_future axis)) hp.

(** A run of calls [w.next(v)], one for each value of [vs] in order. *)
Definition feed {T : Type} (vs : list T) (w : Discrete T) : Discrete T :=
  fold_left (fun s v => next v s) vs w.

(** ** The conversions in binary64 *)

(** [gamma] and [beta] once more, with [double] as IEEE 754 binary64 and
    every operator of the source as the correctly rounded operation.
    [R_vec] and its operators are modelled from the spec as above; the
    scalar product adds its three products from left to right. *)
Module Binary64.
Import Floats.
Local Open Scope float_scope.

Record R_vec : Type := Build_R_vec { vx : float; vy : float; vz : float }.

Definition R_vec_scale (v : R_vec) (a : float) : R_vec :=
  Build_R_vec (vx v * a) (vy v * a) (vz v * a).

Definition R_vec_dot (v w : R_vec) : float :=
  vx v * vx w + vy v * vy w + vz v * vz w.

#[export] Instance Times_binary64 : Times float float := PrimFloat.mul.
#[export] Instance Times_R_vec : Times R_vec float := R_vec_dot.

(** [double gamma(R_vec p)] *)
Definition gamma (c m_e : float) (p : R_vec) : float :=
  sqrt (square (R_vec_scale p c) + square (m_e * square c))
  / (m_e * square c).

(** [R_vec beta(R_vec p, double gamma)] *)
Definition beta (c m_e : float) (p : R_vec) (gamma : float) : R_vec :=
  R_vec_scale p (1 / (c * m_e * gamma)).






(** Momentum samples and results the properties below are evaluated at:
    the zero vector, (1, 0, 0), (3, 4, 0), and 2^70, 2^500 and 2^600
    along x; the vector of three NaN. *)
Definition R_vec_zero : R_vec := Build_R_vec 0 0 0.
End Binary64.

(** The real number a binary64 value stands for: m 2^e for a finite
    value of mantissa m and exponent e, with its sign; 0 for a zero.
    Infinities and NaN stand for no real number and are given 0. *)
Definition pow2 (e : Z) : R :=
  if (0 <=? e)%Z then IZR (2 ^ e) else / IZR (2 ^ (- e)).

Definition SF2R (x : SpecFloat.spec_float) : R :=
  match x with
  | SpecFloat.S754_finite s m e =>
      IZR (if s then Z.neg m else Z.pos m) * pow2 e
  | _ => 0
  end.

Definition to_R (x : PrimFloat.float) : R := SF2R (FloatOps.Prim2SF x).

(** A binary64 vector as the vector of the reals its components stand
    for. *)
Definition exact (v : Binary64.R_vec) : R_vec :=
  Build_R_vec (to_R (Binary64.vx v)) (to_R (Binary64.vy v))
              (to_R (Binary64.vz v)).

(** ** Properties of the window *)

Lemma pointer_eqb_eq (p q : pointer) : pointer_eqb p q = true <-> p = q.
Proof.
  destruct p as [a|], q as [b|]; simpl; split; intro E;
    try congruence; try reflexivity.
  - apply Nat.eqb_eq in E. now subst.
  - injection E as ->. apply Nat.eqb_refl.
Qed.

Lemma pointer_eqb_neq (p q : pointer) : pointer_eqb p q = false <-> p <> q.
Proof.
  rewrite <- pointer_eqb_eq.
  destruct (pointer_eqb p q); split; intro E; congruence.
Qed.

(** The operations on small inputs. *)
Example next_on_naturals :
  next 5%nat (Discrete_filled 1%nat 2%nat 3%nat 4%nat (Some 0%nat))
  = Discrete_filled 2%nat 3%nat 4%nat 5%nat (Some 0%nat).
Proof. reflexivity. Qed.

Example assign_other_axis_aborts :
  assign false (Discrete_filled 1%nat 2%nat 3%nat 4%nat (Some 1%nat))
               (Discrete_filled 5%nat 6%nat 7%nat 8%nat (Some 2%nat))
  = None.
Proof. reflexivity. Qed.

Example assign_other_axis_ndebug :
  assign true (Discrete_filled 1%nat 2%nat 3%nat 4%nat (Some 1%nat))
              (Discrete_filled 5%nat 6%nat 7%nat 8%nat (Some 2%nat))
  = Some (Discrete_filled 5%nat 6%nat 7%nat 8%nat (Some 1%nat)).
Proof. reflexivity. Qed.

Example dot_old_without_axis (m : memory) :
  dot_old m (Discrete_filled_default 0 1 4 9) = None.
Proof. reflexivity. Qed.

Example dot_old_on_vectors (m : memory) :
  m 0%nat = Some (uniform_axis 0 1) ->
  dot_old m (Discrete_filled R_vec_zero R_vec_zero (Build_R_vec 2 4 6)
                             R_vec_zero (Some 0%nat))
  = Some (Build_R_vec 1 2 3).
Proof.
  intro L. unfold dot_old. simpl. rewrite L. simpl.
  unfold R_vec_div, R_vec_minus. simpl.
  f_equal. f_equal; lra.
Qed.

(** C3. Advancing a window that holds (v0, v1, v2, v3) with v4 leaves
    (v1, v2, v3, v4) in (old2, old, now, future); the time-axis pointer
    is the one the window had.  [next] produces the updated object and
    no value. *)
Theorem next_shift (T : Type) (v0 v1 v2 v3 v4 : T) (hp : pointer) :
  next v4 (Discrete_filled v0 v1 v2 v3 hp) = Discrete_filled v1 v2 v3 v4 hp.
Proof. reflexivity. Qed.

Lemma assert_debug (cond : bool) : assert false cond = None <-> cond = false.
Proof. unfold assert; destruct cond; simpl; split; congruence. Qed.

Lemma assert_passes (ndebug : bool) : assert ndebug true = Some tt.
Proof. unfold assert. now rewrite orb_true_r. Qed.

Lemma assign_same_axis (T : Type) (ndebug : bool) (self copy : Discrete T) :
  h copy = h self ->
  assign ndebug self copy =
  Some (Build_Discrete (old2 copy) (old copy) (now copy) (future copy) (h self)).
Proof.
  intro E. unfold assign.
  apply pointer_eqb_eq in E. rewrite E, assert_passes. reflexivity.
Qed.

Lemma assign_keeps_h (T : Type) (ndebug : bool) (self copy w : Discrete T) :
  assign ndebug self copy = Some w -> h w = h self.
Proof.
  unfold assign. destruct (assert ndebug _); [|discriminate].
  intro E. injection E as <-. reflexivity.
Qed.

Lemma next_keeps_h (T : Type) (v : T) (self : Discrete T) :
  h (next v self) = h self.
Proof. reflexivity. Qed.

Lemma built_on_h (T : Type) (hp : pointer) (w : Discrete T) :
  built_on hp w -> h w = hp.
Proof.
  induction 1 as [v0 v1 v2 v3 | storage | w v _ IH | nd w copy w' _ IH E].
  - reflexivity.
  - reflexivity.
  - now rewrite next_keeps_h.
  - apply assign_keeps_h in E. congruence.
Qed.

(** C8. In a build with assertions ([NDEBUG] not defined) copy-assignment
    aborts exactly when the two windows hold different time-axis pointers;
    when the pointers are the same it copies the four values of the source
    and leaves the pointer of the target as it was. *)
Theorem assign_contract (T : Type) (self copy : Discrete T) :
  (assign false self copy = None <-> h copy <> h self) /\
  (h copy = h self ->
   forall ndebug : bool,
     assign ndebug self copy =
     Some (Build_Discrete (old2 copy) (old copy) (now copy) (future copy)
                          (h self))).
Proof.
  split.
  - unfold assign.
    destruct (assert false (pointer_eqb (h copy) (h self))) eqn:A.
    + split; [discriminate|]. intro N.
      apply pointer_eqb_neq in N. apply assert_debug in N. congruence.
    + split; [|reflexivity]. intros _.
      apply assert_debug in A. now apply pointer_eqb_neq.
  - intros E ndebug. now apply assign_same_axis.
Qed.

Lemma assign_contract_witness :
  assign false (Discrete_filled 1%nat 2%nat 3%nat 4%nat (Some 7%nat))
               (Discrete_filled 5%nat 6%nat 7%nat 8%nat (Some 7%nat))
  = Some (Discrete_filled 5%nat 6%nat 7%nat 8%nat (Some 7%nat)).
Proof.
  exact (proj2 (assign_contract nat
                  (Discrete_filled 1%nat 2%nat 3%nat 4%nat (Some 7%nat))
                  (Discrete_filled 5%nat 6%nat 7%nat 8%nat (Some 7%nat)))
               eq_refl false).
Defined.

Lemma dot_old_null (T : Type) `{Payload T} (m : memory) (w : Discrete T) :
  h w = null -> dot_old m w = None.
Proof. intro E. unfold dot_old. now rewrite E. Qed.

Lemma dot_now_null (T : Type) `{Payload T} (m : memory) (w : Discrete T) :
  h w = null -> dot_now m w = None.
Proof. intro E. unfold dot_now. now rewrite E. Qed.

Lemma dot_old_live (T : Type) `{Payload T} (m : memory) (w : Discrete T)
      (a : address) (axis : Discrete R) :
  h w = Some a -> m a = Some axis ->
  dot_old m w = Some (over (minus (now w) (old2 w)) (now axis - old2 axis)).
Proof. intros E L. unfold dot_old. rewrite E. simpl. now rewrite L. Qed.

Lemma dot_now_live (T : Type) `{Payload T} (m : memory) (w : Discrete T)
      (a : address) (axis : Discrete R) :
  h w = Some a -> m a = Some axis ->
  dot_now m w = Some (over (minus (future w) (old w)) (future axis - old axis)).
Proof. intros E L. unfold dot_now. rewrite E. simpl. now rewrite L. Qed.

Lemma store_same (m : memory) (a : address) (axis : Discrete R) :
  store m a axis a = Some axis.
Proof. unfold store. now rewrite Nat.eqb_refl. Qed.

(** C10. Both constructors leave the time-axis pointer null when it is
    omitted.  [dot_old] and [dot_now] dereference the pointer without a
    test: on a null pointer they are undefined whatever the memory, so
    they are defined only for a non-null pointer.  [next] and [operator=]
    never change the pointer and the accessors have no effect, so a window
    built on a pointer keeps it; when that pointer is the address of a
    live time axis both derivatives are defined. *)
Theorem axis_binding (T : Type) `{Payload T} :
  (forall v0 v1 v2 v3 : T, h (Discrete_filled_default v0 v1 v2 v3) = null) /\
  (forall storage : Discrete T, h (Discrete_unfilled_default storage) = null) /\
  (forall (m : memory) (w : Discrete T),
      h w = null -> dot_old m w = None /\ dot_now m w = None) /\
  (forall (m : memory) (w : Discrete T),
      dot_old m w <> None \/ dot_now m w <> None -> h w <> null) /\
  (forall (v : T) (w : Discrete T), h (next v w) = h w) /\
  (forall (ndebug : bool) (w copy w' : Discrete T),
      assign ndebug w copy = Some w' -> h w' = h w) /\
  (forall (hp : pointer) (w : Discrete T), built_on hp w -> h w = hp) /\
  (forall (m : memory) (a : address) (axis : Discrete R) (w : Discrete T),
      built_on (Some a) w -> m a = Some axis ->
      exists d_old d_now : T,
        dot_old m w = Some d_old /\ dot_now m w = Some d_now).
Proof.
  split; [reflexivity|]. split; [reflexivity|].
  split; [intros m w E; split;
          [now apply dot_old_null | now apply dot_now_null]|].
  split.
  { intros m w [D | D] E; apply D;
      [now apply dot_old_null | now apply dot_now_null]. }
  split; [reflexivity|].
  split; [intros ndebug w copy w'; apply assign_keeps_h|].
  split; [intros hp w; apply built_on_h|].
  intros m a axis w B L. apply built_on_h in B.
  exists (over (minus (now w) (old2 w)) (now axis - old2 axis)).
  exists (over (minus (future w) (old w)) (future axis - old axis)).
  split.
  - now apply dot_old_live with (a := a).
  - now apply dot_now_live with (a := a).
Qed.

Lemma axis_binding_witness :
  exists d_old d_now : R,
    dot_old (store (fun _ => None) 0%nat (uniform_axis 0 1))
            (next 16 (Discrete_filled 0 1 4 9 (Some 0%nat))) = Some d_old /\
    dot_now (store (fun _ => None) 0%nat (uniform_axis 0 1))
            (next 16 (Discrete_filled 0 1 4 9 (Some 0%nat))) = Some d_now.
Proof.
  apply (proj2 (proj2 (proj2 (proj2 (proj2 (proj2 (proj2
           (axis_binding R)))))))
         (store (fun _ => None) 0%nat (uniform_axis 0 1)) 0%nat
         (uniform_axis 0 1)).
  - apply built_next. apply built_filled.
  - apply store_same.
Defined.

(** C4. For a window whose pointer is the address of a live time axis,
    [dot_old] is (now - old2) / (axis.now - axis.old2) and [dot_now] is
    (future - old) / (axis.future - axis.old).  The second is the first
    one step later: once the axis and the window have both been advanced,
    [dot_old] gives what [dot_now] gave before. *)
Theorem dot_centered (T : Type) `{Payload T} (m : memory) (w : Discrete T)
        (a : address) (axis : Discrete R) :
  h w = Some a -> m a = Some axis ->
  dot_old m w
  = Some (over (minus (now w) (old2 w)) (now axis - old2 axis)) /\
  dot_now m w
  = Some (over (minus (future w) (old w)) (future axis - old axis)) /\
  (forall (v : T) (t : R),
      dot_old (store m a (next t axis)) (next v w) = dot_now m w).
Proof.
  intros E L. split; [|split].
  - now apply dot_old_live with (a := a).
  - now apply dot_now_live with (a := a).
  - intros v t.
    rewrite (dot_now_live T m w a axis E L).
    rewrite (dot_old_live T (store m a (next t axis)) (next v w) a
               (next t axis)); [reflexivity | exact E | apply store_same].
Qed.

Lemma dot_centered_witness :
  dot_old (store (fun _ => None) 0%nat (uniform_axis 0 1))
          (Discrete_filled 0 1 4 9 (Some 0%nat))
  = Some ((4 - 0) / (0 + 2 * 1 - 0)) /\
  dot_now (store (fun _ => None) 0%nat (uniform_axis 0 1))
          (Discrete_filled 0 1 4 9 (Some 0%nat))
  = Some ((9 - 1) / (0 + 3 * 1 - (0 + 1))).
Proof.
  pose proof (dot_centered R (store (fun _ => None) 0%nat (uniform_axis 0 1))
                (Discrete_filled 0 1 4 9 (Some 0%nat)) 0%nat
                (uniform_axis 0 1) eq_refl (store_same _ _ _)) as [D1 [D2 _]].
  split; [exact D1 | exact D2].
Defined.

(** The analytic derivative of the quadratic. *)
Lemma quadratic_derivative (q2 q1 q0 t : R) :
  derivable_pt_lim (quadratic q2 q1 q0) t (2 * q2 * t + q1).
Proof.
  unfold quadratic.
  replace (2 * q2 * t + q1) with ((q2 * 1 * t + q2 * t * 1) + q1 * 1 + 0)
    by ring.
  apply (derivable_pt_lim_plus (fun t => q2 * t * t + q1 * t) (fun _ => q0)).
  - apply (derivable_pt_lim_plus (fun t => q2 * t * t) (fun t => q1 * t)).
    + apply (derivable_pt_lim_mult (fun t => q2 * t) (fun t => t)).
      * apply (derivable_pt_lim_scal (fun t => t)), derivable_pt_lim_id.
      * apply derivable_pt_lim_id.
    + apply (derivable_pt_lim_scal (fun t => t)), derivable_pt_lim_id.
  - apply derivable_pt_lim_const.
Qed.

(** C9. On a uniform time axis t0, t0+dt, t0+2dt, t0+3dt with dt <> 0,
    for a window that holds a quadratic at these four times, [dot_old] is
    the analytic derivative at t0+dt and [dot_now] the analytic derivative
    at t0+2dt.  With the axis (0, 1, 2, 3) and the values (0, 1, 4, 9)
    they are 2 and 4. *)
Theorem dot_exact_on_quadratics :
  (forall (q2 q1 q0 t0 dt : R) (m : memory) (a : address) (axis : Discrete R),
      dt <> 0 ->
      m a = Some axis ->
      uniform t0 dt axis ->
      exists d_old d_now : R,
        dot_old m (sampled (quadratic q2 q1 q0) axis (Some a)) = Some d_old /\
        dot_now m (sampled (quadratic q2 q1 q0) axis (Some a)) = Some d_now /\
        derivable_pt_lim (quadratic q2 q1 q0) (t0 + dt) d_old /\
        derivable_pt_lim (quadratic q2 q1 q0) (t0 + 2 * dt) d_now) /\
  (forall (m : memory) (a : address) (hp : pointer),
      m a = Some (Discrete_filled 0 1 2 3 hp) ->
      dot_old m (Discrete_filled 0 1 4 9 (Some a)) = Some 2 /\
      dot_now m (Discrete_filled 0 1 4 9 (Some a)) = Some 4).
Proof.
  split.
  - intros q2 q1 q0 t0 dt m a axis Hdt L (U2 & U1 & U0 & Uf).
    exists (2 * q2 * (t0 + dt) + q1), (2 * q2 * (t0 + 2 * dt) + q1).
    split; [|split; [|split; apply quadratic_derivative]].
    + erewrite dot_old_live; [|reflexivity|exact L].
      unfold sampled, get_old2, get_old, get_now, get_future in *.
      simpl. rewrite U2, U0. f_equal. unfold quadratic. field. lra.
    + erewrite dot_now_live; [|reflexivity|exact L].
      unfold sampled, get_old2, get_old, get_now, get_future in *.
      simpl. rewrite U1, Uf. f_equal. unfold quadratic. field. lra.
  - intros m a hp L. split.
    + erewrite dot_old_live; [|reflexivity|exact L]. f_equal. simpl. lra.
    + erewrite dot_now_live; [|reflexivity|exact L]. f_equal. simpl. lra.
Qed.

Lemma uniform_axis_uniform (t0 dt : R) : uniform t0 dt (uniform_axis t0 dt).
Proof. repeat split. Qed.

Lemma dot_exact_on_quadratics_witness :
  exists d_old d_now : R,
    dot_old (store (fun _ => None) 0%nat (uniform_axis 0 1))
            (sampled (quadratic 1 0 0) (uniform_axis 0 1) (Some 0%nat))
    = Some d_old /\
    dot_now (store (fun _ => None) 0%nat (uniform_axis 0 1))
            (sampled (quadratic 1 0 0) (uniform_axis 0 1) (Some 0%nat))
    = Some d_now /\
    derivable_pt_lim (quadratic 1 0 0) (0 + 1) d_old /\
    derivable_pt_lim (quadratic 1 0 0) (0 + 2 * 1) d_now.
Proof.
  apply (proj1 dot_exact_on_quadratics 1 0 0 0 1
           (store (fun _ => None) 0%nat (uniform_axis 0 1)) 0%nat
           (uniform_axis 0 1)).
  - lra.
  - apply store_same.
  - apply uniform_axis_uniform.
Defined.

(** ** Properties of the conversions *)

Lemma R_vec_eq (v w : R_vec) :
  vx v = vx w -> vy v = vy w -> vz v = vz w -> v = w.
Proof. destruct v, w; simpl; intros -> -> ->; reflexivity. Qed.

Lemma R_vec_dot_nonneg (v : R_vec) : 0 <= R_vec_dot v v.
Proof. unfold R_vec_dot. nra. Qed.

Lemma R_vec_dot_scale (v : R_vec) (a : R) :
  R_vec_dot (R_vec_scale v a) (R_vec_scale v a) = R_vec_dot v v * (a * a).
Proof. unfold R_vec_dot, R_vec_scale; simpl. ring. Qed.

Lemma norm_sqr (v : R_vec) : norm v * norm v = R_vec_dot v v.
Proof. unfold norm. apply sqrt_sqrt, R_vec_dot_nonneg. Qed.


(** Unfolds [util::square] and the quantities built on it down to the
    operations of [R]. *)
Ltac unfold_square :=
  unfold energy2, rest, square, times, Times_R_vec, Times_double in *.

Section Conversions.
Variables c m_e : R.

Lemma gamma_unfold (p : R_vec) :
  gamma c m_e p = sqrt (energy2 c m_e p) / rest c m_e.
Proof. reflexivity. Qed.

Lemma energy2_dot (p : R_vec) :
  energy2 c m_e p
  = R_vec_dot p p * (c * c) + rest c m_e * rest c m_e.
Proof. unfold_square. now rewrite R_vec_dot_scale. Qed.

Lemma energy2_norm (p : R_vec) :
  energy2 c m_e p = (norm p * c) ^ 2 + (m_e * c ^ 2) ^ 2.
Proof. rewrite energy2_dot, <- norm_sqr. unfold_square. ring. Qed.

Lemma gamma_lorentz_factor (p : R_vec) :
  gamma c m_e p = lorentz_factor c m_e (norm p).
Proof.
  rewrite gamma_unfold, energy2_norm. unfold lorentz_factor.
  unfold_square. f_equal. ring.
Qed.

Lemma beta_div (p : R_vec) (g : R) :
  beta c m_e p g = R_vec_div p (c * m_e * g).
Proof.
  unfold beta, R_vec_scale, R_vec_div. f_equal; unfold Rdiv; ring.
Qed.

Hypothesis c_pos : 0 < c.
Hypothesis m_e_pos : 0 < m_e.

Lemma rest_pos : 0 < rest c m_e.
Proof. unfold_square. repeat apply Rmult_lt_0_compat; assumption. Qed.

Lemma energy2_ge_rest2 (p : R_vec) :
  rest c m_e * rest c m_e <= energy2 c m_e p.
Proof.
  rewrite energy2_dot. pose proof (R_vec_dot_nonneg p). nra.
Qed.

Lemma sqrt_energy2_ge_rest (p : R_vec) :
  rest c m_e <= sqrt (energy2 c m_e p).
Proof.
  rewrite <- (sqrt_square (rest c m_e)) at 1 by (left; apply rest_pos).
  apply sqrt_le_1_alt, energy2_ge_rest2.
Qed.

Lemma gamma_ge_1 (p : R_vec) : 1 <= gamma c m_e p.
Proof.
  rewrite gamma_unfold.
  pose proof rest_pos as P. pose proof (sqrt_energy2_ge_rest p) as L.
  apply (Rmult_le_reg_r (rest c m_e)); [exact P|].
  unfold Rdiv. rewrite Rmult_assoc, Rinv_l by lra. lra.
Qed.

Lemma gamma_zero : gamma c m_e R_vec_zero = 1.
Proof.
  rewrite gamma_unfold, energy2_dot.
  replace (R_vec_dot R_vec_zero R_vec_zero) with 0
    by (unfold R_vec_dot; simpl; ring).
  rewrite Rmult_0_l, Rplus_0_l, sqrt_square by (left; apply rest_pos).
  apply Rdiv_diag. pose proof rest_pos. lra.
Qed.



End Conversions.

(** C1. [momentum_to_gamma] returns a new window on the time axis of the
    converter whose four values are, slot by slot, the Lorentz factor
    sqrt((|p_i| c)^2 + (m_e c^2)^2) / (m_e c^2) of the momentum sample
    of that slot, |p_i| being its Euclidean norm. *)
Theorem momentum_to_gamma_spec (c m_e : R) (self : More_discrete)
        (p : Discrete R_vec) :
  momentum_to_gamma c m_e self p
  = Discrete_filled (lorentz_factor c m_e (norm (old2 p)))
                    (lorentz_factor c m_e (norm (old p)))
                    (lorentz_factor c m_e (norm (now p)))
                    (lorentz_factor c m_e (norm (future p)))
                    (stepwidth self).
Proof.
  unfold momentum_to_gamma, get_old2, get_old, get_now, get_future.
  now rewrite !gamma_lorentz_factor.
Qed.

(** C2. [momentum_to_beta] returns a new window whose slot i is
    p_i / (c m_e g_i): each momentum sample is paired with the gamma value
    of the same slot.  The window is on the time axis of the converter. *)
Theorem momentum_to_beta_spec (c m_e : R) (self : More_discrete)
        (p : Discrete R_vec) (g : Discrete R) :
  momentum_to_beta c m_e self p g
  = Discrete_filled (R_vec_div (old2 p) (c * m_e * old2 g))
                    (R_vec_div (old p) (c * m_e * old g))
                    (R_vec_div (now p) (c * m_e * now g))
                    (R_vec_div (future p) (c * m_e * future g))
                    (stepwidth self).
Proof.
  unfold momentum_to_beta, get_old2, get_old, get_now, get_future.
  now rewrite !beta_div.
Qed.

(** C5. With a positive speed of light and a positive rest mass, [gamma]
    is at least 1 at every momentum and exactly 1 at the zero vector, so
    that a momentum window of four zero vectors is converted to the gamma
    window (1, 1, 1, 1). *)
Theorem gamma_at_least_1 (c m_e : R) (self : More_discrete) (hp : pointer) :
  0 < c -> 0 < m_e ->
  (forall p : R_vec, 1 <= gamma c m_e p) /\
  gamma c m_e R_vec_zero = 1 /\
  momentum_to_gamma c m_e self
    (Discrete_filled R_vec_zero R_vec_zero R_vec_zero R_vec_zero hp)
  = Discrete_filled 1 1 1 1 (stepwidth self).
Proof.
  intros C M. split; [|split].
  - intro p. now apply gamma_ge_1.
  - now apply gamma_zero.
  - unfold momentum_to_gamma, get_old2, get_old, get_now, get_future; simpl.
    now rewrite (gamma_zero c m_e C M).
Qed.

Lemma gamma_at_least_1_witness :
  1 <= gamma 299792458 9.10938291e-31 (Build_R_vec 3 4 0).
Proof.
  apply (proj1 (gamma_at_least_1 299792458 9.10938291e-31
                  (Build_More_discrete null) null ltac:(lra) ltac:(lra))).
Defined.

(** ** The conversions evaluated in binary64 *)









(** ** Further properties of the window *)

Lemma feed_keeps_h (T : Type) (vs : list T) (w : Discrete T) :
  h (feed vs w) = h w.
Proof.
  revert w. induction vs as [|v vs IH]; intro w; [reflexivity|].
  unfold feed in *. simpl. now rewrite IH.
Qed.

Lemma feed_app (T : Type) (vs us : list T) (w : Discrete T) :
  feed (vs ++ us) w = feed us (feed vs w).
Proof. unfold feed. apply fold_left_app. Qed.

(** X1. Whatever a window held, once the last four calls of [next] have
    passed a, b, c and d it holds exactly (a, b, c, d) and still has the
    pointer it started with.  The values the one-argument constructor
    left undetermined are gone after four calls. *)
Theorem feed_last_four (T : Type) (vs : list T) (a b c d : T)
        (w : Discrete T) :
  feed (vs ++ [a; b; c; d]) w = Discrete_filled a b c d (h w).
Proof.
  rewrite feed_app, <- (feed_keeps_h T vs w).
  generalize (feed vs w). intro s. reflexivity.
Qed.

Lemma Discrete_eta (T : Type) (w : Discrete T) :
  Build_Discrete (old2 w) (old w) (now w) (future w) (h w) = w.
Proof. now destruct w. Qed.

Lemma assign_returns_same_axis (T : Type) (self copy w : Discrete T) :
  assign false self copy = Some w -> h copy = h self.
Proof.
  unfold assign.
  destruct (assert false (pointer_eqb (h copy) (h self))) eqn:A;
    [|discriminate].
  intros _. apply pointer_eqb_eq.
  destruct (pointer_eqb (h copy) (h self)); [reflexivity|discriminate].
Qed.

(** X2. Assigning a window to itself returns it unchanged in every build.
    In a build with assertions, whenever [operator=] returns, the target
    has become equal to the source in all five members. *)
Theorem assign_target_equals_source (T : Type) :
  (forall (ndebug : bool) (w : Discrete T), assign ndebug w w = Some w) /\
  (forall self copy w : Discrete T,
      assign false self copy = Some w -> w = copy).
Proof.
  split.
  - intros ndebug w. rewrite assign_same_axis by reflexivity.
    now rewrite Discrete_eta.
  - intros self copy w E.
    pose proof (assign_returns_same_axis T self copy w E) as P.
    rewrite (assign_same_axis T false self copy P) in E.
    injection E as <-. rewrite <- P. apply Discrete_eta.
Qed.

Lemma assign_target_equals_source_witness :
  Discrete_filled 5%nat 6%nat 7%nat 8%nat (Some 7%nat)
  = Discrete_filled 5%nat 6%nat 7%nat 8%nat (Some 7%nat).
Proof.
  apply (proj2 (assign_target_equals_source nat)
           (Discrete_filled 1%nat 2%nat 3%nat 4%nat (Some 7%nat))
           (Discrete_filled 5%nat 6%nat 7%nat 8%nat (Some 7%nat))).
  reflexivity.
Defined.

(** X3. With NDEBUG defined [operator=] never aborts.  Even when the
    source is on another axis, or on none, it returns the target with the
    four values of the source and the target's own pointer, so that the
    derivatives of the result divide the differences of the source by the
    times of the target's axis. *)
Theorem assign_ndebug_silent (T : Type) `{Payload T} (m : memory)
        (self copy : Discrete T) (a : address) (axis : Discrete R) :
  h self = Some a -> m a = Some axis ->
  exists w : Discrete T,
    assign true self copy = Some w /\
    h w = h self /\
    dot_old m w
    = Some (over (minus (now copy) (old2 copy)) (now axis - old2 axis)) /\
    dot_now m w
    = Some (over (minus (future copy) (old copy)) (future axis - old axis)).
Proof.
  intros E L.
  exists (Build_Discrete (old2 copy) (old copy) (now copy) (future copy)
                         (h self)).
  split; [reflexivity|]. split; [reflexivity|]. split.
  - unfold dot_old. simpl. rewrite E. simpl. now rewrite L.
  - unfold dot_now. simpl. rewrite E. simpl. now rewrite L.
Qed.

Lemma assign_ndebug_silent_witness :
  exists w : Discrete R,
    assign true (Discrete_filled 0 0 0 0 (Some 0%nat))
                (Discrete_filled_default 0 1 4 9) = Some w /\
    h w = Some 0%nat /\
    dot_old (store (fun _ => None) 0%nat (uniform_axis 0 1)) w
    = Some ((4 - 0) / (0 + 2 * 1 - 0)) /\
    dot_now (store (fun _ => None) 0%nat (uniform_axis 0 1)) w
    = Some ((9 - 1) / (0 + 3 * 1 - (0 + 1))).
Proof.
  exact (assign_ndebug_silent R
           (store (fun _ => None) 0%nat (uniform_axis 0 1))
           (Discrete_filled 0 0 0 0 (Some 0%nat))
           (Discrete_filled_default 0 1 4 9) 0%nat (uniform_axis 0 1)
           eq_refl (store_same _ _ _)).
Defined.

Lemma sampled_dot_old (f : R -> R) (m : memory) (a : address)
      (axis : Discrete R) :
  m a = Some axis ->
  dot_old m (sampled f axis (Some a))
  = Some ((f (now axis) - f (old2 axis)) / (now axis - old2 axis)).
Proof. intro L. unfold dot_old. simpl. now rewrite L. Qed.

Lemma sampled_dot_now (f : R -> R) (m : memory) (a : address)
      (axis : Discrete R) :
  m a = Some axis ->
  dot_now m (sampled f axis (Some a))
  = Some ((f (future axis) - f (old axis)) / (future axis - old axis)).
Proof. intro L. unfold dot_now. simpl. now rewrite L. Qed.

(** X4. On any time axis, uniform or not, whose times straddling a step
    differ, the derivatives of a window that samples a quadratic are its
    analytic derivative at the midpoint of the two times they divide by:
    [dot_old] at (axis.old2 + axis.now)/2 and [dot_now] at
    (axis.old + axis.future)/2. *)
Theorem dot_midpoint_on_quadratics (q2 q1 q0 : R) (m : memory) (a : address)
        (axis : Discrete R) :
  m a = Some axis ->
  old2 axis <> now axis ->
  old axis <> future axis ->
  exists d_old d_now : R,
    dot_old m (sampled (quadratic q2 q1 q0) axis (Some a)) = Some d_old /\
    dot_now m (sampled (quadratic q2 q1 q0) axis (Some a)) = Some d_now /\
    derivable_pt_lim (quadratic q2 q1 q0) ((old2 axis + now axis) / 2) d_old /\
    derivable_pt_lim (quadratic q2 q1 q0) ((old axis + future axis) / 2) d_now.
Proof.
  intros L N1 N2.
  exists (2 * q2 * ((old2 axis + now axis) / 2) + q1),
         (2 * q2 * ((old axis + future axis) / 2) + q1).
  split; [|split; [|split; apply quadratic_derivative]].
  - rewrite (sampled_dot_old _ m a axis L). f_equal.
    unfold quadratic. field. lra.
  - rewrite (sampled_dot_now _ m a axis L). f_equal.
    unfold quadratic. field. lra.
Qed.

Lemma dot_midpoint_on_quadratics_witness :
  exists d_old d_now : R,
    dot_old (store (fun _ => None) 0%nat (Discrete_filled_default 0 1 3 7))
            (sampled (quadratic 1 0 0) (Discrete_filled_default 0 1 3 7)
                     (Some 0%nat)) = Some d_old /\
    dot_now (store (fun _ => None) 0%nat (Discrete_filled_default 0 1 3 7))
            (sampled (quadratic 1 0 0) (Discrete_filled_default 0 1 3 7)
                     (Some 0%nat)) = Some d_now /\
    derivable_pt_lim (quadratic 1 0 0) ((0 + 3) / 2) d_old /\
    derivable_pt_lim (quadratic 1 0 0) ((1 + 7) / 2) d_now.
Proof.
  apply (dot_midpoint_on_quadratics 1 0 0
           (store (fun _ => None) 0%nat (Discrete_filled_default 0 1 3 7))
           0%nat (Discrete_filled_default 0 1 3 7)).
  - apply store_same.
  - simpl. lra.
  - simpl. lra.
Defined.

(** X5. At the time it is named after, [dot_old] of a sampled quadratic
    is off by the quadratic coefficient times the difference of the two
    adjacent steps, (now - old) - (old - old2) of the axis: it is the
    analytic derivative at axis.old exactly when the signal is linear or
    the two steps are equal.  The same holds for [dot_now] at axis.now
    with the steps (future - now) and (now - old). *)
Theorem dot_error_at_nominal_time (q2 q1 q0 : R) (m : memory) (a : address)
        (axis : Discrete R) :
  m a = Some axis ->
  old2 axis <> now axis ->
  old axis <> future axis ->
  exists d_old d_now : R,
    dot_old m (sampled (quadratic q2 q1 q0) axis (Some a)) = Some d_old /\
    dot_now m (sampled (quadratic q2 q1 q0) axis (Some a)) = Some d_now /\
    derivable_pt_lim (quadratic q2 q1 q0) (old axis)
      (d_old - q2 * ((now axis - old axis) - (old axis - old2 axis))) /\
    derivable_pt_lim (quadratic q2 q1 q0) (now axis)
      (d_now - q2 * ((future axis - now axis) - (now axis - old axis))).
Proof.
  intros L N1 N2.
  exists (q2 * (old2 axis + now axis) + q1),
         (q2 * (old axis + future axis) + q1).
  split; [|split; [|split]].
  - rewrite (sampled_dot_old _ m a axis L). f_equal.
    unfold quadratic. field. lra.
  - rewrite (sampled_dot_now _ m a axis L). f_equal.
    unfold quadratic. field. lra.
  - replace (q2 * (old2 axis + now axis) + q1
             - q2 * ((now axis - old axis) - (old axis - old2 axis)))
      with (2 * q2 * old axis + q1) by ring.
    apply quadratic_derivative.
  - replace (q2 * (old axis + future axis) + q1
             - q2 * ((future axis - now axis) - (now axis - old axis)))
      with (2 * q2 * now axis + q1) by ring.
    apply quadratic_derivative.
Qed.

Lemma dot_error_at_nominal_time_witness :
  exists d_old d_now : R,
    dot_old (store (fun _ => None) 0%nat (Discrete_filled_default 0 1 3 7))
            (sampled (quadratic 1 0 0) (Discrete_filled_default 0 1 3 7)
                     (Some 0%nat)) = Some d_old /\
    dot_now (store (fun _ => None) 0%nat (Discrete_filled_default 0 1 3 7))
            (sampled (quadratic 1 0 0) (Discrete_filled_default 0 1 3 7)
                     (Some 0%nat)) = Some d_now /\
    derivable_pt_lim (quadratic 1 0 0) 1 (d_old - 1 * ((3 - 1) - (1 - 0))) /\
    derivable_pt_lim (quadratic 1 0 0) 3 (d_now - 1 * ((7 - 3) - (3 - 1))).
Proof.
  apply (dot_error_at_nominal_time 1 0 0
           (store (fun _ => None) 0%nat (Discrete_filled_default 0 1 3 7))
           0%nat (Discrete_filled_default 0 1 3 7)).
  - apply store_same.
  - simpl. lra.
  - simpl. lra.
Defined.

(** X6. For a scalar window on an axis whose times straddling axis.old
    are 2 dt apart, [dot_old] after a call of [next] is the mean of two
    one-step difference quotients: [get_delta_old] before the call and
    [get_delta_old] after it, each divided by dt. *)
Theorem dot_old_mean_of_deltas (m : memory) (w : Discrete R) (v : R)
        (a : address) (axis : Discrete R) (dt : R) :
  h w = Some a -> m a = Some axis ->
  dt <> 0 ->
  now axis - old2 axis = 2 * dt ->
  dot_old m (next v w)
  = Some ((get_delta_old w / dt + get_delta_old (next v w) / dt) / 2).
Proof.
  intros E L Hdt U.
  rewrite (dot_old_live R m (next v w) a axis E L), U.
  f_equal. unfold get_delta_old, get_now, get_old. simpl. field. exact Hdt.
Qed.

Lemma dot_old_mean_of_deltas_witness :
  dot_old (store (fun _ => None) 0%nat (uniform_axis 0 1))
          (next 16 (Discrete_filled 0 1 4 9 (Some 0%nat)))
  = Some ((get_delta_old (Discrete_filled 0 1 4 9 (Some 0%nat)) / 1
           + get_delta_old (next 16 (Discrete_filled 0 1 4 9 (Some 0%nat))) / 1)
          / 2).
Proof.
  apply (dot_old_mean_of_deltas
           (store (fun _ => None) 0%nat (uniform_axis 0 1))
           (Discrete_filled 0 1 4 9 (Some 0%nat)) 16 0%nat (uniform_axis 0 1) 1).
  - reflexivity.
  - apply store_same.
  - lra.
  - simpl. lra.
Defined.

(** X7. On a uniform axis the order in which the owner advances the axis
    and a window does not matter to the derivatives: after the axis alone
    has been advanced by one more step of the same width, [dot_old] and
    [dot_now] of every window bound to it return what they returned
    before. *)
Theorem uniform_axis_advance (T : Type) `{Payload T} (m : memory)
        (w : Discrete T) (a : address) (axis : Discrete R) (t0 dt : R) :
  h w = Some a -> m a = Some axis ->
  uniform t0 dt axis ->
  dot_old (store m a (next (t0 + 4 * dt) axis)) w = dot_old m w /\
  dot_now (store m a (next (t0 + 4 * dt) axis)) w = dot_now m w.
Proof.
  intros E L (U2 & U1 & U0 & Uf).
  unfold get_old2, get_old, get_now, get_future in *.
  rewrite (dot_old_live T m w a axis E L), (dot_now_live T m w a axis E L).
  rewrite (dot_old_live T _ w a _ E (store_same m a _)).
  rewrite (dot_now_live T _ w a _ E (store_same m a _)).
  simpl. rewrite U2, U1, U0, Uf.
  split; do 2 f_equal; ring.
Qed.

Lemma uniform_axis_advance_witness :
  dot_old (store (store (fun _ => None) 0%nat (uniform_axis 0 1)) 0%nat
                 (next (0 + 4 * 1) (uniform_axis 0 1)))
          (Discrete_filled 0 1 4 9 (Some 0%nat))
  = dot_old (store (fun _ => None) 0%nat (uniform_axis 0 1))
            (Discrete_filled 0 1 4 9 (Some 0%nat)) /\
  dot_now (store (store (fun _ => None) 0%nat (uniform_axis 0 1)) 0%nat
                 (next (0 + 4 * 1) (uniform_axis 0 1)))
          (Discrete_filled 0 1 4 9 (Some 0%nat))
  = dot_now (store (fun _ => None) 0%nat (uniform_axis 0 1))
            (Discrete_filled 0 1 4 9 (Some 0%nat)).
Proof.
  apply (uniform_axis_advance R
           (store (fun _ => None) 0%nat (uniform_axis 0 1))
           (Discrete_filled 0 1 4 9 (Some 0%nat)) 0%nat (uniform_axis 0 1)
           0 1).
  - reflexivity.
  - apply store_same.
  - apply uniform_axis_uniform.
Defined.

(** ** Further properties of the conversions *)

Lemma feed_cons (T : Type) (v : T) (vs : list T) (w : Discrete T) :
  feed (v :: vs) w = feed vs (next v w).
Proof. reflexivity. Qed.

(** X8. Converting and advancing commute.  After any run of [next] on a
    momentum window, [momentum_to_gamma] gives the window obtained by
    advancing the converted window with the [gamma] of each new sample;
    and the beta window computed from the momentum window and its own
    gamma window is the one obtained by advancing the earlier beta window
    with the [beta] of each new sample and its [gamma]. *)
Theorem conversions_commute_with_feed (c m_e : R) (self : More_discrete)
        (vs : list R_vec) (p : Discrete R_vec) :
  momentum_to_gamma c m_e self (feed vs p)
  = feed (map (gamma c m_e) vs) (momentum_to_gamma c m_e self p) /\
  momentum_to_beta c m_e self (feed vs p)
                   (momentum_to_gamma c m_e self (feed vs p))
  = feed (map (fun v => beta c m_e v (gamma c m_e v)) vs)
         (momentum_to_beta c m_e self p (momentum_to_gamma c m_e self p)).
Proof.
  revert p. induction vs as [|v vs IH]; intro p.
  - split; reflexivity.
  - destruct (IH (next v p)) as [IHg IHb].
    rewrite !feed_cons. simpl map. rewrite !feed_cons.
    split.
    + rewrite IHg. reflexivity.
    + rewrite IHb. reflexivity.
Qed.

Lemma assign_debug_none (T : Type) (self copy : Discrete T) :
  assign false self copy = None <-> h copy <> h self.
Proof.
  rewrite <- pointer_eqb_neq. unfold assign, assert.
  destruct (pointer_eqb (h copy) (h self)); simpl; split; intro E;
    congruence.
Qed.

(** X9. In a build with assertions, assigning a window made by a
    converter to a window [w] aborts exactly when the pointer of [w] is
    not the [stepwidth] of the converter; windows made by the same
    converter can always be assigned to one another, and the target then
    equals the source. *)
Theorem converter_windows_assignable (c m_e : R) (self : More_discrete)
        (p q : Discrete R_vec) (g : Discrete R) :
  (forall w : Discrete R,
      assign false w (momentum_to_gamma c m_e self p) = None
      <-> h w <> stepwidth self) /\
  (forall w : Discrete R_vec,
      assign false w (momentum_to_beta c m_e self p g) = None
      <-> h w <> stepwidth self) /\
  assign false (momentum_to_gamma c m_e self p)
               (momentum_to_gamma c m_e self q)
  = Some (momentum_to_gamma c m_e self q) /\
  assign false (momentum_to_beta c m_e self p g)
               (momentum_to_beta c m_e self q g)
  = Some (momentum_to_beta c m_e self q g).
Proof.
  split; [|split; [|split]].
  - intro w. rewrite assign_debug_none. simpl.
    split; intros N E; apply N; congruence.
  - intro w. rewrite assign_debug_none. simpl.
    split; intros N E; apply N; congruence.
  - now rewrite assign_same_axis.
  - now rewrite assign_same_axis.
Qed.

Section Kinematics.
Variables c m_e : R.
Hypothesis c_pos : 0 < c.
Hypothesis m_e_pos : 0 < m_e.

Lemma gamma_common (p : R_vec) :
  gamma c m_e p = sqrt (1 + (norm p / (m_e * c)) ^ 2).
Proof.
  pose proof (rest_pos c m_e c_pos m_e_pos) as P.
  rewrite gamma_unfold.
  replace (1 + (norm p / (m_e * c)) ^ 2)
    with (energy2 c m_e p / (rest c m_e * rest c m_e)).
  - rewrite sqrt_div_alt by nra. now rewrite sqrt_square by lra.
  - rewrite energy2_dot, <- norm_sqr. unfold_square. field. lra.
Qed.

End Kinematics.

(** X10. With a positive speed of light and a positive rest mass, the
    expression of the source for [gamma] has the same value as the common
    form sqrt(1 + (|p| / (m_e c))^2). *)
Theorem gamma_common_form (c m_e : R) (p : R_vec) :
  0 < c -> 0 < m_e ->
  gamma c m_e p = sqrt (1 + (norm p / (m_e * c)) ^ 2).
Proof. intros C M. now apply gamma_common. Qed.

Lemma gamma_common_form_witness :
  gamma 299792458 9.10938291e-31 (Build_R_vec 3 4 0)
  = sqrt (1 + (norm (Build_R_vec 3 4 0) / (9.10938291e-31 * 299792458)) ^ 2).
Proof.
  apply (gamma_common_form 299792458 9.10938291e-31 (Build_R_vec 3 4 0));
    lra.
Defined.

Lemma momentum_round_trip_any_gamma_aux (c m_e : R) (p : R_vec) (g : R) :
  c <> 0 -> m_e <> 0 -> g <> 0 ->
  R_vec_scale (R_vec_scale (R_vec_scale (beta c m_e p g) c) m_e) g = p.
Proof.
  intros C M G. apply R_vec_eq; simpl; field; repeat split; assumption.
Qed.

(** X15. The product beta(p, g) * c * m_e * g gives back p for every
    non-zero g, when c and m_e are not zero: it does so for the gamma of
    p and for any other gamma value alike. *)
Theorem momentum_round_trip_any_gamma (c m_e : R) (p : R_vec) (g : R) :
  c <> 0 -> m_e <> 0 -> g <> 0 ->
  R_vec_scale (R_vec_scale (R_vec_scale (beta c m_e p g) c) m_e) g = p.
Proof. intros C M G. now apply momentum_round_trip_any_gamma_aux. Qed.

Lemma momentum_round_trip_any_gamma_witness :
  R_vec_scale (R_vec_scale (R_vec_scale (beta 2 3 (Build_R_vec 3 4 0) 5) 2) 3) 5
  = Build_R_vec 3 4 0.
Proof.
  apply (momentum_round_trip_any_gamma 2 3 (Build_R_vec 3 4 0) 5); lra.
Defined.

(** X17. Three calls of [next] are enough for [dot_now] and not for
    [dot_old].  After [next(a)], [next(b)], [next(c)] on any window, for
    instance one whose values the one-argument constructor left
    undetermined, [dot_now] no longer depends on what the window held,
    while [old2], which [dot_old] reads, is still the former [future]. *)
Theorem three_calls_of_next (T : Type) `{Payload T} (m : memory)
        (a b c : T) (storage : Discrete T) (hp : pointer) :
  old2 (feed [a; b; c] (Discrete_unfilled storage hp)) = future storage /\
  (forall x : T,
      dot_now m (feed [a; b; c] (Discrete_unfilled storage hp))
      = dot_now m (Discrete_filled x a b c hp)) /\
  (forall axis : Discrete R,
      deref m hp = Some axis ->
      dot_old m (feed [a; b; c] (Discrete_unfilled storage hp))
      = Some (over (minus b (future storage)) (now axis - old2 axis))).
Proof.
  split; [reflexivity|]. split; [reflexivity|].
  intros axis L. unfold dot_old. simpl. now rewrite L.
Qed.

Lemma three_calls_of_next_witness :
  dot_old (store (fun _ => None) 0%nat (uniform_axis 0 1))
          (feed [1; 4; 9]
                (Discrete_unfilled (Discrete_filled_default 5 6 7 8)
                                   (Some 0%nat)))
  = Some ((4 - 8) / (0 + 2 * 1 - 0)).
Proof.
  exact (proj2 (proj2 (three_calls_of_next R
                         (store (fun _ => None) 0%nat (uniform_axis 0 1))
                         1 4 9 (Discrete_filled_default 5 6 7 8)
                         (Some 0%nat)))
               (uniform_axis 0 1) (store_same _ _ _)).
Defined.

(** X18. With non-zero c, m_e and g, [beta] is the zero vector exactly
    when the momentum is: no moving sample is given a zero velocity
    ratio. *)
Theorem beta_zero_iff (c m_e : R) (p : R_vec) (g : R) :
  c <> 0 -> m_e <> 0 -> g <> 0 ->
  (beta c m_e p g = R_vec_zero <-> p = R_vec_zero).
Proof.
  intros C M G. split.
  - intro B.
    rewrite <- (momentum_round_trip_any_gamma_aux c m_e p g C M G), B.
    apply R_vec_eq; simpl; ring.
  - intros ->. unfold beta. apply R_vec_eq; simpl; ring.
Qed.

Lemma beta_zero_iff_witness :
  beta 2 3 (Build_R_vec 3 4 0) 5 = R_vec_zero
  <-> Build_R_vec 3 4 0 = R_vec_zero.
Proof.
  apply (beta_zero_iff 2 3 (Build_R_vec 3 4 0) 5); lra.
Defined.
